(** * A shallow embedding of the hydrax sampling-based MPC core

    Scalars of the JAX arrays are modelled as real numbers; arrays as
    nested lists: a control vector is [list R], a control sequence (the
    nominal [mean], shape [(planning_horizon - 1, nu)]) is
    [list (list R)], and a batch of candidates is a list of those.
    The tasks of [hydrax/tasks] are embedded from the source; the
    controllers, the rollout evaluator and the task base class are not
    part of the sources at hand and are modelled from the spec. *)

From Stdlib Require Import Reals Lra Lia List Arith ZArith NArith.
Import ListNotations.
Open Scope R_scope.

(** ** Array helpers *)

(** [jnp.sum] over a vector. *)
Fixpoint sumR (l : list R) : R :=
  match l with
  | [] => 0
  | x :: l' => x + sumR l'
  end.

(** [jnp.square] followed by [jnp.sum]. *)
Definition sum_square (l : list R) : R := sumR (map (fun x => x * x) l).

(** [jnp.zeros(n)]. *)
Definition zeros (n : nat) : list R := repeat 0 n.

(** Element-wise binary operation on same-shape arrays. *)
Fixpoint zip_with {A B C : Type} (f : A -> B -> C) (a : list A) (b : list B)
  : list C :=
  match a, b with
  | x :: a', y :: b' => f x y :: zip_with f a' b'
  | _, _ => []
  end.

(** A control sequence of shape [(rows, cols)]. *)
Definition shaped (rows cols : nat) (m : list (list R)) : Prop :=
  length m = rows /\ Forall (fun u => length u = cols) m.

(** ** hydrax/tasks/cart_pole.py *)

Module CartPole.

(** The part of [mjx.Data] the cart-pole costs read. *)
Record mjx_data := { qpos : list R; qvel : list R }.

(** [_distance_to_upright]: [theta = qpos[1] - pi],
    [sum(square([cos theta - 1, sin theta]))]. *)
Definition _distance_to_upright (state : mjx_data) : R :=
  let theta := nth 1 (qpos state) 0 - PI in
  let theta_err := [cos theta - 1; sin theta] in
  sum_square theta_err.

Definition running_cost (state : mjx_data) (control : list R) : R :=
  let theta_cost := _distance_to_upright state in
  let theta_dot_cost := 0.01 * sum_square (qvel state) in
  let control_cost := 0.001 * sum_square control in
  let total_cost := theta_cost + theta_dot_cost + control_cost in
  total_cost.

Definition terminal_cost (state : mjx_data) : R :=
  let theta_cost := _distance_to_upright state in
  let theta_dot_cost := 0.01 * sum_square (qvel state) in
  theta_cost + theta_dot_cost.

End CartPole.

(** ** hydrax/tasks/double_cart_pole.py *)

Module DoubleCartPole.

(** The part of [mjx.Data] the double cart-pole costs read; [site_xpos]
    holds one row [(x, y, z)] per site. *)
Record mjx_data := { qpos : list R; qvel : list R; site_xpos : list (list R) }.

(** [self.tip_id = mj_model.site("tip").id], fixed at construction. *)
Definition _distance_to_upright (tip_id : nat) (state : mjx_data) : R :=
  let tip_z := nth 2 (nth tip_id (site_xpos state) []) 0 in
  (tip_z - 4) * (tip_z - 4).

Definition running_cost (tip_id : nat) (state : mjx_data) (control : list R) : R :=
  let theta_cost := _distance_to_upright tip_id state in
  let centering_cost := sum_square [nth 0 (qpos state) 0] in
  let velocity_cost := 0.01 * sum_square (qvel state) in
  let control_cost := 0.01 * sum_square control in
  theta_cost + centering_cost + velocity_cost + control_cost.

Definition terminal_cost (tip_id : nat) (state : mjx_data) : R :=
  let theta_cost := 10 * _distance_to_upright tip_id state in
  let centering_cost := sum_square [nth 0 (qpos state) 0] in
  let velocity_cost := 0.01 * sum_square (qvel state) in
  theta_cost + centering_cost + velocity_cost.

End DoubleCartPole.

(** ** Stable argmin over the candidate axis ([jnp.argmin]) *)

(** [argmin_from i bi bv l]: scanning [l] whose head has index [i], with
    best index so far [bi] of value [bv]; only a strictly smaller value
    replaces the best, so the first index wins ties. *)
Fixpoint argmin_from (i bi : nat) (bv : R) (l : list R) : nat :=
  match l with
  | [] => bi
  | x :: l' =>
      if Rlt_dec x bv then argmin_from (S i) i x l'
      else argmin_from (S i) bi bv l'
  end.

Definition argmin (l : list R) : nat :=
  match l with
  | [] => 0
  | x :: l' => argmin_from 1 0 x l'
  end.

(** [enumerate]-style map: [mapi_from f n l] applies [f (n + k)] to the
    [k]-th element. *)
Fixpoint mapi_from {A B : Type} (f : nat -> A -> B) (n : nat) (l : list A)
  : list B :=
  match l with
  | [] => []
  | x :: l' => f n x :: mapi_from f (S n) l'
  end.

Definition mapi {A B : Type} (f : nat -> A -> B) (l : list A) : list B :=
  mapi_from f 0 l.

(** ** Randomness handle *)

(** Modelled from the spec: [jax.random.split], the explicit split-stream
    randomness handle threaded through [PolicyParams] (section 9: a
    counter-based or split-stream handle, returned and reassigned).  A
    key is a node of the binary split tree; [split_key k] returns the
    key carried on and the key consumed by the sampling. *)
Definition key := N.

Definition split_key (k : key) : key * key :=
  ((2 * k + 1)%N, (2 * k + 2)%N).

(** ** Policy parameters and rollout batches *)

Record PolicyParams := { mean : list (list R); rng : key }.

Record RolloutBatch := {
  costs : list (list R);
  observations : list (list (list R));
  controls : list (list (list R))
}.

(** The two controllers of [hydrax.algs]. *)
Inductive Alg := PredictiveSampling | MPPI.

(** ** Controller construction *)

(** Modelled from the spec: the [InvalidConfiguration] error of the
    constructors of [hydrax.algs] (section 7: non-positive temperature,
    non-positive sample count, horizon below 2, raised eagerly at
    construction).  Integer hyperparameters arrive as Python [int]s. *)
Inductive ConfigError := InvalidConfiguration.

Record Controller := {
  ctrl_alg : Alg;
  ctrl_planning_horizon : nat;
  ctrl_num_samples : nat;
  ctrl_noise_level : R;
  ctrl_temperature : R
}.

Definition make_predictive_sampling (planning_horizon num_samples : Z)
  (noise_level : R) : ConfigError + Controller :=
  if ((num_samples <=? 0)%Z || (planning_horizon <? 2)%Z)%bool
  then inl InvalidConfiguration
  else inr {| ctrl_alg := PredictiveSampling;
              ctrl_planning_horizon := Z.to_nat planning_horizon;
              ctrl_num_samples := Z.to_nat num_samples;
              ctrl_noise_level := noise_level;
              ctrl_temperature := 0 |}.

Definition make_mppi (planning_horizon num_samples : Z)
  (noise_level temperature : R) : ConfigError + Controller :=
  if ((num_samples <=? 0)%Z || (planning_horizon <? 2)%Z)%bool
  then inl InvalidConfiguration
  else if Rle_dec temperature 0 then inl InvalidConfiguration
  else inr {| ctrl_alg := MPPI;
              ctrl_planning_horizon := Z.to_nat planning_horizon;
              ctrl_num_samples := Z.to_nat num_samples;
              ctrl_noise_level := noise_level;
              ctrl_temperature := temperature |}.

(** A controller's hyperparameters are well formed. *)
Definition valid_controller (c : Controller) : Prop :=
  (1 <= ctrl_num_samples c)%nat /\ (2 <= ctrl_planning_horizon c)%nat /\
  (ctrl_alg c = MPPI -> 0 < ctrl_temperature c).

Section Controllers.

(** The task interface ([hydrax.task_base.Task]): dynamics and costs of
    one physical model, treated as given. *)
Variable State : Type.
Variable step : State -> list R -> State.
Variable running_cost : State -> list R -> R.
Variable terminal_cost : State -> R.
Variable get_observation : State -> list R.
Variable planning_horizon : nat.
Variable nu : nat.

(** Controller hyperparameters. *)
Variable num_samples : nat.
Variable noise_level : R.
Variable temperature : R.

(** [jax.random.normal(key, (num_samples, H - 1, nu))]: entry
    [(i, t, j)] of the standard Gaussian draw made from a key. *)
Variable normal : key -> nat -> nat -> nat -> R.

(** Modelled from the spec: [init_params], the nominal trajectory
    initialised to zeros and the randomness seeded explicitly. *)
Definition init_params (seed : key) : PolicyParams :=
  {| mean := repeat (zeros nu) (planning_horizon - 1); rng := seed |}.

(** Candidate [i]: the nominal plus [noise_level] times Gaussian noise,
    per time step [t] and per control dimension [j]. *)
Definition perturb (k : key) (i : nat) (m : list (list R)) : list (list R) :=
  mapi (fun t u => mapi (fun j x => x + noise_level * normal k i t j) u) m.

(** Modelled from the spec: [sample_controls], which splits the key,
    draws [num_samples] perturbations of the nominal and puts the
    unperturbed nominal first. *)
Definition sample_controls (params : PolicyParams)
  : list (list (list R)) * PolicyParams :=
  let (rng', sample_rng) := split_key (rng params) in
  let noisy := map (fun i => perturb sample_rng i (mean params))
                   (seq 0 num_samples) in
  (mean params :: noisy, {| mean := mean params; rng := rng' |}).

(** Modelled from the spec: one candidate's rollout, [running_cost] at
    each state with its control, then [step]; the last entry is
    [running_cost(x_H, 0) + terminal_cost(x_H)]. *)
Fixpoint rollout_costs (x : State) (us : list (list R)) : list R :=
  match us with
  | [] => [running_cost x (zeros nu) + terminal_cost x]
  | u :: us' => running_cost x u :: rollout_costs (step x u) us'
  end.

(** The states one candidate visits, starting at [x]. *)
Fixpoint rollout_states (x : State) (us : list (list R)) : list State :=
  match us with
  | [] => [x]
  | u :: us' => x :: rollout_states (step x u) us'
  end.

(** Modelled from the spec: [eval_rollouts], every candidate simulated
    from the same [state]. *)
Definition eval_rollouts (state : State) (cs : list (list (list R)))
  : RolloutBatch :=
  {| costs := map (rollout_costs state) cs;
     observations :=
       map (fun us => map get_observation (rollout_states state us)) cs;
     controls := cs |}.

(** [jnp.sum(rollouts.costs, axis=1)]. *)
Definition total_costs (rollouts : RolloutBatch) : list R :=
  map sumR (costs rollouts).

(** Modelled from the spec: Predictive Sampling's [update_params], the
    control sequence of the argmin candidate copied verbatim.  (The
    default of [nth] is never reached when every candidate has a cost
    row; indexing out of range is an error in the source.) *)
Definition ps_update (params : PolicyParams) (rollouts : RolloutBatch)
  : PolicyParams :=
  let best_idx := argmin (total_costs rollouts) in
  {| mean := nth best_idx (controls rollouts) (mean params);
     rng := rng params |}.

(** [jnp.min]. *)
Definition list_min (l : list R) : R :=
  match l with
  | [] => 0
  | x :: l' => fold_left Rmin l' x
  end.

(** The MPPI weights: subtract the minimum, divide by the temperature,
    exponentiate (of the negated value) and normalise. *)
Definition mppi_weights (c : list R) : list R :=
  let cmin := list_min c in
  let e := map (fun ci => exp (- (ci - cmin) / temperature)) c in
  map (fun ei => ei / sumR e) e.

Definition madd (a b : list (list R)) : list (list R) :=
  zip_with (zip_with Rplus) a b.

Definition mscale (w : R) (m : list (list R)) : list (list R) :=
  map (map (Rmult w)) m.

(** [jnp.sum(weights[:, None, None] * controls, axis=0)]. *)
Definition weighted_mean (ws : list R) (cs : list (list (list R)))
  : list (list R) :=
  fold_right (fun wc acc => madd (mscale (fst wc) (snd wc)) acc)
    (repeat (zeros nu) (planning_horizon - 1)) (combine ws cs).

(** Modelled from the spec: MPPI's [update_params]. *)
Definition mppi_update (params : PolicyParams) (rollouts : RolloutBatch)
  : PolicyParams :=
  {| mean := weighted_mean (mppi_weights (total_costs rollouts))
                           (controls rollouts);
     rng := rng params |}.

Definition update_params (alg : Alg) : PolicyParams -> RolloutBatch -> PolicyParams :=
  match alg with
  | PredictiveSampling => ps_update
  | MPPI => mppi_update
  end.

(** Modelled from the spec: [optimize] = [sample_controls], then
    [eval_rollouts], then [update_params]. *)
Definition optimize (alg : Alg) (state : State) (params : PolicyParams)
  : PolicyParams * RolloutBatch :=
  let (cs, params') := sample_controls params in
  let rollouts := eval_rollouts state cs in
  (update_params alg params' rollouts, rollouts).




(** * Lemmas *)

Lemma sumR_zeros n : sumR (map (fun x => x * x) (zeros n)) = 0.
Proof. unfold zeros. induction n as [|n IH]; simpl; [reflexivity | rewrite IH; ring]. Qed.

(** The scan of [argmin_from]: either no strictly smaller value was
    found, or the result is the first position of the minimum, strictly
    below [bv]. *)
Lemma argmin_from_spec (l : list R) : forall i bi bv,
  (argmin_from i bi bv l = bi /\ Forall (fun x => bv <= x) l) \/
  (exists k, (k < length l)%nat /\ argmin_from i bi bv l = (i + k)%nat /\
     nth k l 0 < bv /\
     (forall j, (j < length l)%nat -> nth k l 0 <= nth j l 0) /\
     (forall j, (j < k)%nat -> nth k l 0 < nth j l 0)).
Proof.
  induction l as [|x l IH]; intros i bi bv; simpl.
  - left; auto.
  - destruct (Rlt_dec x bv) as [Hlt|Hge].
    + right.
      destruct (IH (S i) i x) as [[-> HF] | (k & Hk & -> & Hkx & Hmin & Hfirst)].
      * exists 0%nat. split; [lia|]. split; [lia|]. split; [simpl; lra|].
        split.
        -- intros [|j] Hj; simpl; [lra|].
           apply (Forall_nth (fun y => x <= y)); auto. simpl in Hj; lia.
        -- intros j Hj; lia.
      * exists (S k). split; [lia|]. split; [lia|]. split; [simpl; lra|].
        split.
        -- intros [|j] Hj; simpl; [lra|]. apply Hmin. simpl in Hj; lia.
        -- intros [|j] Hj; simpl; [lra|]. apply Hfirst; lia.
    + destruct (IH (S i) bi bv) as [[-> HF] | (k & Hk & -> & Hkx & Hmin & Hfirst)].
      * left. split; auto. constructor; auto. lra.
      * right. exists (S k). split; [simpl; lia|]. split; [lia|].
        split; [simpl; lra|]. split.
        -- intros [|j] Hj; simpl; [lra|]. apply Hmin. simpl in Hj; lia.
        -- intros [|j] Hj; simpl; [lra|]. apply Hfirst; lia.
Qed.

(** [argmin] returns the first position of a minimum of a non-empty
    list. *)
Lemma argmin_spec (l : list R) : l <> [] ->
  (argmin l < length l)%nat /\
  (forall j, (j < length l)%nat -> nth (argmin l) l 0 <= nth j l 0) /\
  (forall j, (j < argmin l)%nat -> nth (argmin l) l 0 < nth j l 0).
Proof.
  destruct l as [|x l]; [congruence|]; intros _. simpl.
  destruct (argmin_from_spec l 1 0 x)
    as [[-> HF] | (k & Hk & -> & Hkx & Hmin & Hfirst)].
  - split; [lia|]. split.
    + intros [|j] Hj; simpl; [lra|].
      apply (Forall_nth (fun y => x <= y)); auto. simpl in Hj; lia.
    + intros j Hj; lia.
  - split; [simpl; lia|]. split.
    + intros [|j] Hj; simpl; [lra|]. apply Hmin. simpl in Hj; lia.
    + intros [|j] Hj; simpl; [lra|]. apply Hfirst; lia.
Qed.

(** ** Shapes *)

Lemma mapi_from_length {A B : Type} (f : nat -> A -> B) n l :
  length (mapi_from f n l) = length l.
Proof.
  revert n; induction l as [|x l IH]; intros n; simpl; auto.
Qed.

Lemma zip_with_length {A B C : Type} (f : A -> B -> C) a b :
  length (zip_with f a b) = Nat.min (length a) (length b).
Proof.
  revert b; induction a as [|x a IH]; intros [|y b]; simpl; auto.
Qed.

Lemma mapi_from_Forall_length {A B : Type} (f : nat -> list A -> list B)
  cols n m :
  (forall t u, length (f t u) = length u) ->
  Forall (fun u => length u = cols) m ->
  Forall (fun u => length u = cols) (mapi_from f n m).
Proof.
  intros Hf HF. revert n.
  induction HF as [|u m Hu HF IH]; intros n; simpl; constructor; auto.
  rewrite Hf; auto.
Qed.

Lemma perturb_shaped k i rows cols m :
  shaped rows cols m -> shaped rows cols (perturb k i m).
Proof.
  unfold perturb. intros [Hl HF]. split.
  - unfold mapi. rewrite mapi_from_length; auto.
  - apply mapi_from_Forall_length; auto.
    intros t u. unfold mapi. apply mapi_from_length.
Qed.

Lemma madd_shaped rows cols a b :
  shaped rows cols a -> shaped rows cols b -> shaped rows cols (madd a b).
Proof.
  unfold madd, shaped. intros [Ha HFa] [Hb HFb]. split.
  - rewrite zip_with_length; lia.
  - clear Ha Hb. revert b HFb.
    induction HFa as [|u a Hu HFa IH]; intros b HFb; simpl; auto.
    destruct HFb as [|v b Hv HFb]; simpl; constructor; auto.
    rewrite zip_with_length; lia.
Qed.

Lemma mscale_shaped rows cols w m :
  shaped rows cols m -> shaped rows cols (mscale w m).
Proof.
  unfold mscale. intros [Hl HF]. split.
  - rewrite length_map; auto.
  - apply Forall_map. eapply Forall_impl; [|exact HF].
    intros u Hu; simpl. rewrite length_map; auto.
Qed.

Lemma zero_matrix_shaped rows cols : shaped rows cols (repeat (zeros cols) rows).
Proof.
  split.
  - apply repeat_length.
  - apply Forall_forall. intros u Hu. apply repeat_spec in Hu. subst.
    apply repeat_length.
Qed.





Lemma weighted_mean_shaped ws cs :
  Forall (shaped (planning_horizon - 1) nu) cs ->
  shaped (planning_horizon - 1) nu (weighted_mean ws cs).
Proof.
  unfold weighted_mean. revert cs.
  induction ws as [|w ws IH]; intros cs HF; simpl.
  - apply zero_matrix_shaped.
  - destruct HF as [|c cs Hc HF]; simpl.
    + apply zero_matrix_shaped.
    + apply madd_shaped; [apply mscale_shaped; auto | apply IH; auto].
Qed.

Lemma sample_controls_shaped p :
  shaped (planning_horizon - 1) nu (mean p) ->
  Forall (shaped (planning_horizon - 1) nu) (fst (sample_controls p)) /\
  mean (snd (sample_controls p)) = mean p.
Proof.
  intros Hm. unfold sample_controls. simpl. split; auto.
  constructor; auto. apply Forall_map, Forall_forall.
  intros i _. apply perturb_shaped; auto.
Qed.



Lemma nth_indep_lt {A : Type} (l : list A) n d d' :
  (n < length l)%nat -> nth n l d = nth n l d'.
Proof. apply nth_indep. Qed.

Lemma rollout_costs_length x us : length (rollout_costs x us) = S (length us).
Proof. revert x; induction us as [|u us IH]; intros x; simpl; auto. Qed.

Lemma rollout_states_not_nil x us : rollout_states x us <> [].
Proof. destruct us; simpl; discriminate. Qed.

Lemma last_cons_cons {A : Type} (a : A) (l : list A) d :
  l <> [] -> last (a :: l) d = last l d.
Proof. destruct l; [congruence | reflexivity]. Qed.

Lemma last_indep {A : Type} (l : list A) d d' : l <> [] -> last l d = last l d'.
Proof.
  induction l as [|a l IH]; [congruence|]; intros _.
  destruct l as [|b l]; [reflexivity|].
  rewrite !(last_cons_cons a (b :: l)) by discriminate. apply IH. discriminate.
Qed.

(** The last cost of a rollout is the merged terminal entry at the final
    state. *)
Lemma rollout_costs_last x us :
  last (rollout_costs x us) 0 =
  running_cost (last (rollout_states x us) x) (zeros nu) +
  terminal_cost (last (rollout_states x us) x).
Proof.
  revert x; induction us as [|u us IH]; intros x; [reflexivity|].
  change (rollout_costs x (u :: us)) with (running_cost x u :: rollout_costs (step x u) us).
  change (rollout_states x (u :: us)) with (x :: rollout_states (step x u) us).
  rewrite last_cons_cons.
  2:{ intros E. pose proof (rollout_costs_length (step x u) us) as L.
      rewrite E in L. discriminate. }
  rewrite last_cons_cons by apply rollout_states_not_nil.
  rewrite IH. rewrite (last_indep _ (step x u) x) by apply rollout_states_not_nil.
  reflexivity.
Qed.

(** ** MPPI weights *)

Lemma sumR_map_div (l : list R) (s : R) :
  sumR (map (fun e => e / s) l) = sumR l / s.
Proof. induction l as [|x l IH]; simpl; [unfold Rdiv; ring | rewrite IH; unfold Rdiv; ring]. Qed.

Lemma sumR_pos (l : list R) : l <> [] -> Forall (fun x => 0 < x) l -> 0 < sumR l.
Proof.
  induction l as [|x l IH]; [congruence|]; intros _ HF. inversion HF; subst.
  destruct l as [|y l]; simpl in *; [lra|].
  assert (0 < sumR (y :: l)) by (apply IH; auto; discriminate). simpl in *. lra.
Qed.

Lemma exp_terms_pos (c : list R) (m : R) :
  Forall (fun x => 0 < x) (map (fun ci => exp (- (ci - m) / temperature)) c).
Proof. apply Forall_map, Forall_forall. intros x _. apply exp_pos. Qed.

Lemma mppi_weights_sum (c : list R) : c <> [] -> sumR (mppi_weights c) = 1.
Proof.
  intros Hc. unfold mppi_weights. rewrite sumR_map_div.
  assert (0 < sumR (map (fun ci => exp (- (ci - list_min c) / temperature)) c)).
  { apply sumR_pos; [destruct c; simpl; congruence | apply exp_terms_pos]. }
  field. lra.
Qed.

Lemma mppi_weights_pos (c : list R) : Forall (fun w => 0 < w) (mppi_weights c).
Proof.
  unfold mppi_weights. set (e := map _ c).
  destruct c as [|x c]; [constructor|].
  assert (0 < sumR e) by (apply sumR_pos; [discriminate | apply exp_terms_pos]).
  apply Forall_map. eapply Forall_impl; [|apply exp_terms_pos].
  intros y Hy. simpl. apply Rdiv_lt_0_compat; auto.
Qed.

Lemma nth_zip_with {A B C : Type} (f : A -> B -> C) a b n da db dc :
  (n < length a)%nat -> (n < length b)%nat ->
  nth n (zip_with f a b) dc = f (nth n a da) (nth n b db).
Proof.
  revert b n; induction a as [|x a IH]; intros [|y b] [|n] Ha Hb; simpl in *;
    try lia; auto.
  apply IH; lia.
Qed.

Lemma nth_map_rows (g : R -> R) (m : list (list R)) t :
  nth t (map (map g) m) [] = map g (nth t m []).
Proof. revert t; induction m as [|u m IH]; intros [|t]; simpl; auto. Qed.

Lemma nth_map_entry (g : R -> R) (u : list R) j :
  (j < length u)%nat -> nth j (map g u) 0 = g (nth j u 0).
Proof.
  intros Hj. rewrite (nth_indep_lt _ _ 0 (g 0)) by (rewrite length_map; auto).
  apply map_nth.
Qed.

Lemma nth_repeat_lt {A : Type} (x d : A) n t : (t < n)%nat -> nth t (repeat x n) d = x.
Proof. revert t; induction n as [|n IH]; intros [|t] Ht; simpl; auto; try lia. apply IH; lia. Qed.

Lemma shaped_row rows cols m t :
  shaped rows cols m -> (t < rows)%nat -> length (nth t m []) = cols.
Proof. intros [Hl HF] Ht. apply Forall_nth; auto. lia. Qed.

(** Entries of the weighted sum of shaped control sequences. *)
Lemma weighted_mean_entry ws cs t j :
  Forall (shaped (planning_horizon - 1) nu) cs ->
  (t < planning_horizon - 1)%nat -> (j < nu)%nat ->
  nth j (nth t (weighted_mean ws cs) []) 0 =
  sumR (zip_with (fun w c => w * nth j (nth t c []) 0) ws cs).
Proof.
  intros HF Ht Hj. revert cs HF.
  induction ws as [|w ws IH]; intros cs HF.
  - unfold weighted_mean. simpl. rewrite nth_repeat_lt by auto.
    unfold zeros. apply nth_repeat_lt; auto.
  - destruct HF as [|c cs Hc HF].
    + unfold weighted_mean. simpl. rewrite nth_repeat_lt by auto.
      unfold zeros. apply nth_repeat_lt; auto.
    + change (weighted_mean (w :: ws) (c :: cs))
        with (madd (mscale w c) (weighted_mean ws cs)).
      pose proof (mscale_shaped _ _ w c Hc) as Hs.
      pose proof (weighted_mean_shaped ws cs HF) as Hw.
      unfold madd. rewrite (nth_zip_with _ _ _ _ [] [] []).
      2:{ destruct Hs as [-> _]; auto. }
      2:{ destruct Hw as [-> _]; auto. }
      rewrite (nth_zip_with _ _ _ _ 0 0 0).
      2:{ rewrite (shaped_row _ _ _ _ Hs Ht); auto. }
      2:{ rewrite (shaped_row _ _ _ _ Hw Ht); auto. }
      simpl. rewrite IH by auto. unfold mscale. rewrite nth_map_rows.
      rewrite nth_map_entry by (rewrite (shaped_row _ _ _ _ Hc Ht); auto).
      reflexivity.
Qed.


(** * Claims *)

(** C10: for the CartPole task the terminal cost of every state equals
    its running cost at the zero control vector (of any dimension): the
    terminal cost is the running cost without its control-effort term. *)
Theorem cart_pole_terminal_cost_eq_running_cost_zero
  (state : CartPole.mjx_data) (n : nat) :
  CartPole.terminal_cost state = CartPole.running_cost state (zeros n).
Proof.
  unfold CartPole.terminal_cost, CartPole.running_cost, sum_square.
  rewrite sumR_zeros. ring.
Qed.

(** C1: Predictive Sampling's [update_params] copies verbatim the
    control sequence of the candidate of smallest total cost, the first
    one on ties, so its total cost is at most candidate 0's; within
    [optimize] candidate 0 is the previous nominal. *)
Theorem ps_update_selects_first_argmin (p : PolicyParams) (r : RolloutBatch) :
  controls r <> [] -> length (costs r) = length (controls r) ->
  let tc := total_costs r in
  let best := argmin tc in
  (best < length (controls r))%nat /\
  mean (ps_update p r) = nth best (controls r) [] /\
  (forall j, (j < length (controls r))%nat -> nth best tc 0 <= nth j tc 0) /\
  (forall j, (j < best)%nat -> nth best tc 0 < nth j tc 0) /\
  nth best tc 0 <= nth 0 tc 0 /\
  (forall x, nth 0 (controls (snd (optimize PredictiveSampling x p))) [] = mean p).
Proof.
  intros Hne Hlen tc best.
  assert (Htc : tc <> []).
  { unfold tc, total_costs. destruct (costs r); simpl in *; [|discriminate].
    destruct (controls r); simpl in *; [congruence | discriminate]. }
  assert (Hl : length tc = length (controls r)).
  { unfold tc, total_costs. rewrite length_map; auto. }
  destruct (argmin_spec tc Htc) as (Hb & Hmin & Hfirst).
  fold best in Hb, Hmin, Hfirst. rewrite Hl in Hb, Hmin.
  split; [exact Hb|]. split.
  { simpl. apply nth_indep_lt; auto. }
  split; [exact Hmin|]. split; [exact Hfirst|]. split.
  { apply Hmin. destruct (controls r); simpl; [congruence | lia]. }
  intros x. unfold optimize, sample_controls. simpl. reflexivity.
Qed.

(** C2: [sample_controls] returns [num_samples + 1] candidates of the
    nominal's shape [(planning_horizon - 1, nu)], candidate 0 being the
    input nominal exactly. *)
Theorem sample_controls_nominal_first (p : PolicyParams) :
  shaped (planning_horizon - 1) nu (mean p) ->
  let cs := fst (sample_controls p) in
  length cs = S num_samples /\
  Forall (shaped (planning_horizon - 1) nu) cs /\
  nth 0 cs [] = mean p.
Proof.
  intros Hm cs. split; [|split].
  - unfold cs, sample_controls. simpl. rewrite length_map, length_seq. reflexivity.
  - apply sample_controls_shaped; auto.
  - reflexivity.
Qed.

(** C3: for a start state and [num_samples + 1] candidates of shape
    [(planning_horizon - 1, nu)], [eval_rollouts] gives a cost array of
    shape [(num_samples + 1, planning_horizon)]; each candidate's row is
    its rollout from the given state, and its last entry is
    [running_cost(x_H, 0) + terminal_cost(x_H)] at its final state. *)
Theorem eval_rollouts_costs_shape (x : State) (cs : list (list (list R))) :
  (2 <= planning_horizon)%nat ->
  length cs = S num_samples ->
  Forall (shaped (planning_horizon - 1) nu) cs ->
  let r := eval_rollouts x cs in
  length (costs r) = S num_samples /\
  Forall (fun row => length row = planning_horizon) (costs r) /\
  (forall i, (i < S num_samples)%nat ->
     let us := nth i cs [] in
     let xs := rollout_states x us in
     nth i (costs r) [] = rollout_costs x us /\
     hd_error xs = Some x /\
     last (nth i (costs r) []) 0 =
       running_cost (last xs x) (zeros nu) + terminal_cost (last xs x)).
Proof.
  intros HH Hlen HF r. split; [|split].
  - simpl. rewrite length_map; auto.
  - simpl. apply Forall_map. eapply Forall_impl; [|exact HF].
    intros us [Hus _]. rewrite rollout_costs_length. lia.
  - intros i Hi us xs. simpl.
    assert (E : nth i (map (rollout_costs x) cs) [] = rollout_costs x us).
    { unfold us. rewrite (nth_indep_lt _ _ [] (rollout_costs x [])).
      - apply map_nth.
      - rewrite length_map; lia. }
    rewrite E. split; [reflexivity|]. split.
    + unfold xs. destruct us; reflexivity.
    + apply rollout_costs_last.
Qed.

(** C4: MPPI's weights (minimum subtracted, divided by the temperature,
    exponentiated, normalised) are positive and sum to 1 over the
    candidates, and every entry of the new nominal is the weighted sum
    of the candidates' entries under these weights. *)
Theorem mppi_update_weighted_average (p : PolicyParams) (r : RolloutBatch) :
  controls r <> [] -> length (costs r) = length (controls r) ->
  Forall (shaped (planning_horizon - 1) nu) (controls r) ->
  let ws := mppi_weights (total_costs r) in
  sumR ws = 1 /\
  length ws = length (controls r) /\
  Forall (fun w => 0 < w) ws /\
  (forall t j, (t < planning_horizon - 1)%nat -> (j < nu)%nat ->
     nth j (nth t (mean (mppi_update p r)) []) 0 =
     sumR (zip_with (fun w c => w * nth j (nth t c []) 0) ws (controls r))).
Proof.
  intros Hne Hlen HF ws. split; [|split; [|split]].
  - apply mppi_weights_sum. unfold total_costs.
    destruct (costs r); simpl in *; [|discriminate].
    destruct (controls r); simpl in *; congruence.
  - unfold ws, mppi_weights, total_costs. rewrite !length_map. auto.
  - apply mppi_weights_pos.
  - intros t j Ht Hj. simpl. apply weighted_mean_entry; auto.
Qed.

(** C5: [sample_controls] is a function of its input parameters, and the
    key it returns differs from the input key. *)
Theorem sample_controls_deterministic_fresh_key (p q : PolicyParams) :
  mean p = mean q -> rng p = rng q ->
  sample_controls p = sample_controls q /\
  rng (snd (sample_controls p)) <> rng p.
Proof.
  destruct p as [m k], q as [m' k']. intros Hm Hk.
  simpl in Hm, Hk. subst m' k'. split; [reflexivity|].
  change (rng (snd (sample_controls {| mean := m; rng := k |})))
    with (2 * k + 1)%N.
  change (rng {| mean := m; rng := k |}) with k.
  unfold key in *. lia.
Qed.


(** C8: the constructors return [InvalidConfiguration] exactly for a
    non-positive sample count, a horizon below 2 or (for MPPI) a
    non-positive temperature; every controller they build is valid. *)
Theorem controller_construction_validates (H ns : Z) (noise T : R) :
  (make_predictive_sampling H ns noise = inl InvalidConfiguration <->
     (ns <= 0 \/ H < 2)%Z) /\
  (make_mppi H ns noise T = inl InvalidConfiguration <->
     (ns <= 0 \/ H < 2)%Z \/ T <= 0) /\
  (forall c, make_predictive_sampling H ns noise = inr c -> valid_controller c) /\
  (forall c, make_mppi H ns noise T = inr c -> valid_controller c).
Proof.
  unfold make_predictive_sampling, make_mppi, valid_controller.
  destruct (Z.leb_spec ns 0), (Z.ltb_spec H 2); simpl;
    destruct (Rle_dec T 0); simpl;
    repeat split; intros; try discriminate; try lia; try lra;
    repeat match goal with
           | H : inr _ = inr _ |- _ => injection H as <-
           end; simpl; try lia; try lra; try discriminate;
    repeat match goal with
           | H : _ \/ _ |- _ => destruct H
           end; try lia; try lra.
Qed.



End Controllers.

(** * Witnesses and counterexample

    A concrete instance: a one-dimensional control, horizon 2, one
    sample, unit noise draws, a state-free model whose running cost is
    the control effort. *)


Lemma ps_update_selects_first_argmin_witness :
  let p0 := {| mean := [[0]]; rng := 0%N |} in
  let r0 := {| costs := [[0]; [1]]; observations := [];
               controls := [[[0]]; [[1]]] |} in
  controls r0 <> [] /\ length (costs r0) = length (controls r0) /\
  mean (ps_update p0 r0) = nth (argmin (total_costs r0)) (controls r0) [].
Proof.
  intros p0 r0. subst p0 r0. split; [discriminate | split; [reflexivity|]].
  pose proof (ps_update_selects_first_argmin unit (fun _ _ => tt)
    (fun _ u => sum_square u) (fun _ => 0) (fun _ => []) 2 1 1 1 1
    (fun _ _ _ _ => 1) {| mean := [[0]]; rng := 0%N |}
    {| costs := [[0]; [1]]; observations := []; controls := [[[0]]; [[1]]] |}
    ltac:(discriminate) eq_refl) as W.
  cbv zeta in W. destruct W as (_ & W & _). exact W.
Defined.

Lemma sample_controls_nominal_first_witness :
  shaped (2 - 1) 1 (mean (init_params 2 1 0%N)) /\
  nth 0 (fst (sample_controls 1 1 (fun _ _ _ _ => 1) (init_params 2 1 0%N))) []
    = mean (init_params 2 1 0%N).
Proof.
  assert (Hs : shaped (2 - 1) 1 (mean (init_params 2 1 0%N))).
  { split; [reflexivity | repeat constructor]. }
  split; [exact Hs|].
  exact (proj2 (proj2 (sample_controls_nominal_first 2 1 1 1
    (fun _ _ _ _ => 1) (init_params 2 1 0%N) Hs))).
Defined.

Lemma eval_rollouts_costs_shape_witness :
  (2 <= 2)%nat /\ length [[[0]]; [[1]]] = 2%nat /\
  Forall (shaped (2 - 1) 1) [[[0]]; [[1]]] /\
  length (costs (eval_rollouts unit (fun _ _ => tt) (fun _ u => sum_square u)
    (fun _ => 0) (fun _ => []) 1 tt [[[0]]; [[1]]])) = 2%nat.
Proof.
  assert (HF : Forall (shaped (2 - 1) 1) [[[0]]; [[1]]]).
  { repeat constructor. }
  split; [lia | split; [reflexivity | split; [exact HF|]]].
  exact (proj1 (eval_rollouts_costs_shape unit (fun _ _ => tt)
    (fun _ u => sum_square u) (fun _ => 0) (fun _ => []) 2 1 1 tt
    [[[0]]; [[1]]] ltac:(lia) eq_refl HF)).
Defined.

Lemma mppi_update_weighted_average_witness :
  let r0 := {| costs := [[0]; [1]]; observations := [];
               controls := [[[0]]; [[1]]] |} in
  controls r0 <> [] /\ length (costs r0) = length (controls r0) /\
  Forall (shaped (2 - 1) 1) (controls r0) /\
  sumR (mppi_weights 1 (total_costs r0)) = 1.
Proof.
  intros r0. subst r0.
  assert (HF : Forall (shaped (2 - 1) 1) [[[0]]; [[1]]]).
  { repeat constructor. }
  split; [discriminate | split; [reflexivity | split; [exact HF|]]].
  exact (proj1 (mppi_update_weighted_average 2 1 1
    {| mean := [[0]]; rng := 0%N |}
    {| costs := [[0]; [1]]; observations := []; controls := [[[0]]; [[1]]] |}
    ltac:(discriminate) eq_refl HF)).
Defined.

Lemma sample_controls_deterministic_fresh_key_witness :
  mean (init_params 2 1 0%N) = mean (init_params 2 1 0%N) /\
  rng (init_params 2 1 0%N) = rng (init_params 2 1 0%N) /\
  rng (snd (sample_controls 1 1 (fun _ _ _ _ => 1) (init_params 2 1 0%N)))
    <> rng (init_params 2 1 0%N).
Proof.
  split; [reflexivity | split; [reflexivity|]].
  exact (proj2 (sample_controls_deterministic_fresh_key 1 1 (fun _ _ _ _ => 1)
    (init_params 2 1 0%N) (init_params 2 1 0%N) eq_refl eq_refl)).
Defined.



(** * Properties of the task costs *)

Lemma sum_square_nonneg (l : list R) : 0 <= sum_square l.
Proof.
  unfold sum_square. induction l as [|x l IH]; simpl; [lra|].
  pose proof (Rle_0_sqr x) as Hx. unfold Rsqr in Hx. lra.
Qed.

Lemma sum_square_zero_iff (l : list R) :
  sum_square l = 0 <-> Forall (fun x => x = 0) l.
Proof.
  unfold sum_square. induction l as [|x l IH]; simpl.
  - split; auto.
  - pose proof (Rle_0_sqr x) as Hx. unfold Rsqr in Hx.
    assert (Hl : 0 <= sumR (map (fun x => x * x) l)) by apply sum_square_nonneg.
    split.
    + intros H. assert (x * x = 0) by lra.
      constructor; [nra|]. apply IH. lra.
    + intros HF. inversion HF; subst. rewrite (proj2 IH); auto. ring.
Qed.

(** The CartPole distance to upright in closed form: [2 + 2 cos q1]. *)
Lemma cart_pole_distance_closed_form (state : CartPole.mjx_data) :
  CartPole._distance_to_upright state = 2 + 2 * cos (nth 1 (CartPole.qpos state) 0).
Proof.
  unfold CartPole._distance_to_upright, sum_square. simpl.
  set (q := nth 1 (CartPole.qpos state) 0).
  rewrite cos_minus, sin_minus, cos_PI, sin_PI.
  pose proof (sin2_cos2 q) as H. unfold Rsqr in H. nra.
Qed.

(** X1: the CartPole distance to upright is [2 + 2 cos(qpos[1])]: it lies
    in [[0, 4]], is 0 with the pole upright ([qpos[1] = pi]) and 4 with
    it hanging down ([qpos[1] = 0]). *)
Theorem cart_pole_distance_bounds (state : CartPole.mjx_data) :
  CartPole._distance_to_upright state = 2 + 2 * cos (nth 1 (CartPole.qpos state) 0) /\
  0 <= CartPole._distance_to_upright state <= 4 /\
  (nth 1 (CartPole.qpos state) 0 = PI -> CartPole._distance_to_upright state = 0) /\
  (nth 1 (CartPole.qpos state) 0 = 0 -> CartPole._distance_to_upright state = 4).
Proof.
  rewrite cart_pole_distance_closed_form.
  pose proof (COS_bound (nth 1 (CartPole.qpos state) 0)).
  split; [reflexivity|]. split; [lra|]. split.
  - intros ->. rewrite cos_PI. ring.
  - intros ->. rewrite cos_0. ring.
Qed.

(** X2: the CartPole running cost is the terminal cost plus
    [0.001 * |u|^2]; so [0 <= terminal_cost <= running_cost]. *)
Theorem cart_pole_running_cost_decomposition (state : CartPole.mjx_data) (u : list R) :
  CartPole.running_cost state u = CartPole.terminal_cost state + 0.001 * sum_square u /\
  0 <= CartPole.terminal_cost state <= CartPole.running_cost state u.
Proof.
  unfold CartPole.running_cost, CartPole.terminal_cost.
  pose proof (sum_square_nonneg u). pose proof (sum_square_nonneg (CartPole.qvel state)).
  pose proof (proj1 (proj2 (cart_pole_distance_bounds state))).
  split; [ring | lra].
Qed.

(** X3: the CartPole running cost is 0 exactly at the upright pole
    ([cos(qpos[1]) = -1]) with all velocities and controls 0. *)
Theorem cart_pole_running_cost_zero_iff (state : CartPole.mjx_data) (u : list R) :
  CartPole.running_cost state u = 0 <->
  cos (nth 1 (CartPole.qpos state) 0) = -1 /\
  Forall (fun v => v = 0) (CartPole.qvel state) /\ Forall (fun x => x = 0) u.
Proof.
  unfold CartPole.running_cost.
  rewrite cart_pole_distance_closed_form.
  pose proof (COS_bound (nth 1 (CartPole.qpos state) 0)).
  pose proof (sum_square_nonneg u). pose proof (sum_square_nonneg (CartPole.qvel state)).
  rewrite <- !sum_square_zero_iff. split.
  - intros E. split; [lra | split; lra].
  - intros (E1 & E2 & E3). rewrite E1, E2, E3. ring.
Qed.

(** X4: the CartPole costs ignore the cart position [qpos[0]] and every
    coordinate other than the pole angle [qpos[1]], and are periodic in
    that angle with period [2 pi]. *)
Theorem cart_pole_costs_angle_periodic (s1 s2 : CartPole.mjx_data) (k : nat) (u : list R) :
  CartPole.qvel s1 = CartPole.qvel s2 ->
  nth 1 (CartPole.qpos s2) 0 = nth 1 (CartPole.qpos s1) 0 + 2 * INR k * PI ->
  CartPole.running_cost s2 u = CartPole.running_cost s1 u /\
  CartPole.terminal_cost s2 = CartPole.terminal_cost s1.
Proof.
  intros Hv Hq.
  assert (Hd : CartPole._distance_to_upright s2 = CartPole._distance_to_upright s1).
  { rewrite !cart_pole_distance_closed_form, Hq, cos_period. reflexivity. }
  unfold CartPole.running_cost, CartPole.terminal_cost. rewrite Hd, Hv. split; reflexivity.
Qed.

(** X5: the DoubleCartPole terminal cost is the running cost at zero
    control plus nine more times the distance to upright, and the
    running cost grows by [0.01 * |u|^2] with the control. *)
Theorem double_cart_pole_cost_decomposition (tip_id : nat)
  (state : DoubleCartPole.mjx_data) (u : list R) (n : nat) :
  DoubleCartPole.terminal_cost tip_id state =
    DoubleCartPole.running_cost tip_id state (zeros n) +
    9 * DoubleCartPole._distance_to_upright tip_id state /\
  DoubleCartPole.running_cost tip_id state u =
    DoubleCartPole.running_cost tip_id state (zeros n) + 0.01 * sum_square u /\
  DoubleCartPole.running_cost tip_id state (zeros n) <=
    DoubleCartPole.terminal_cost tip_id state.
Proof.
  unfold DoubleCartPole.terminal_cost, DoubleCartPole.running_cost.
  assert (Hz : sum_square (zeros n) = 0) by (unfold sum_square; apply sumR_zeros).
  rewrite Hz.
  assert (0 <= DoubleCartPole._distance_to_upright tip_id state).
  { unfold DoubleCartPole._distance_to_upright. cbv zeta. apply Rle_0_sqr. }
  split; [ring|]. split; [ring | lra].
Qed.

(** X6: the DoubleCartPole running cost is non-negative and 0 exactly
    with the tip at height 4, the cart at [qpos[0] = 0], and all
    velocities and controls 0; the terminal cost likewise without the
    control. *)
Theorem double_cart_pole_cost_zero_iff (tip_id : nat)
  (state : DoubleCartPole.mjx_data) (u : list R) :
  let tip_z := nth 2 (nth tip_id (DoubleCartPole.site_xpos state) []) 0 in
  0 <= DoubleCartPole.running_cost tip_id state u /\
  (DoubleCartPole.running_cost tip_id state u = 0 <->
   tip_z = 4 /\ nth 0 (DoubleCartPole.qpos state) 0 = 0 /\
   Forall (fun v => v = 0) (DoubleCartPole.qvel state) /\
   Forall (fun x => x = 0) u) /\
  (DoubleCartPole.terminal_cost tip_id state = 0 <->
   tip_z = 4 /\ nth 0 (DoubleCartPole.qpos state) 0 = 0 /\
   Forall (fun v => v = 0) (DoubleCartPole.qvel state)).
Proof.
  intros tip_z.
  unfold DoubleCartPole.running_cost, DoubleCartPole.terminal_cost,
    DoubleCartPole._distance_to_upright. fold tip_z.
  pose proof (sum_square_nonneg u).
  pose proof (sum_square_nonneg (DoubleCartPole.qvel state)).
  rewrite <- !sum_square_zero_iff.
  set (q0 := nth 0 (DoubleCartPole.qpos state) 0).
  assert (Hq : sum_square [q0] = q0 * q0) by (unfold sum_square; simpl; ring).
  rewrite !Hq.
  set (a := sum_square (DoubleCartPole.qvel state)) in *.
  set (b := sum_square u) in *.
  assert (0 <= (tip_z - 4) * (tip_z - 4)) by apply Rle_0_sqr.
  assert (0 <= q0 * q0) by apply Rle_0_sqr.
  clearbody tip_z q0 a b.
  split; [lra|]. split; split.
  - intros E. assert ((tip_z - 4) * (tip_z - 4) = 0) by lra.
    assert (q0 * q0 = 0) by lra.
    split; [nra | split; [nra | split; lra]].
  - intros (-> & -> & -> & ->). ring.
  - intros E. assert ((tip_z - 4) * (tip_z - 4) = 0) by lra.
    assert (q0 * q0 = 0) by lra.
    split; [nra | split; [nra | lra]].
  - intros (-> & -> & ->). ring.
Qed.

Lemma cart_pole_costs_angle_periodic_witness :
  let s1 := {| CartPole.qpos := [3; 0]; CartPole.qvel := [1; 2] |} in
  let s2 := {| CartPole.qpos := [-5; 0 + 2 * INR 1 * PI]; CartPole.qvel := [1; 2] |} in
  CartPole.qvel s1 = CartPole.qvel s2 /\
  nth 1 (CartPole.qpos s2) 0 = nth 1 (CartPole.qpos s1) 0 + 2 * INR 1 * PI /\
  CartPole.running_cost s2 [1] = CartPole.running_cost s1 [1].
Proof.
  intros s1 s2. subst s1 s2. split; [reflexivity | split; [reflexivity|]].
  exact (proj1 (cart_pole_costs_angle_periodic
    {| CartPole.qpos := [3; 0]; CartPole.qvel := [1; 2] |}
    {| CartPole.qpos := [-5; 0 + 2 * INR 1 * PI]; CartPole.qvel := [1; 2] |}
    1 [1] eq_refl eq_refl)).
Defined.
